(** * GoKartAI: the drive logic of [kart/drive_logic/logic.py]

    A shallow embedding of the collision-avoidance controller
    [SimpleColAvoidLogic] and of the traversal helper [expanding_indices],
    followed by the properties of the design document that concern them.

    Conventions of the embedding.
    - A Python [float] is an IEEE 754 binary64 number: Rocq's primitive
      [float], whose operations are the hardware ones.  [numpy.sqrt] of a
      negative number is [nan], as is [PrimFloat.sqrt].  Python's [/] raises
      [ZeroDivisionError] on a zero divisor where IEEE division does not:
      the call of [_find_speed_from_distance] raises it when
      [DECELERATION_RATE] is zero.
    - A Python [int] is a [Z].
    - An object with mutable attributes is a record, and a method that
      assigns to [self] returns the updated record.
    - An exception is a value of the error monad [outcome].
    - The modules [turn_table], [const], [phys_const] and [drive_data] are not
      part of the sources at hand.  Their constants ([SAFE_DISTANCE],
      [DECELERATION_RATE], [turn_arcs]) are variables of the sections below;
      their classes ([Arc], [DriveData]) are records with the attributes that
      [logic.py] reads. *)

From Stdlib Require Import ZArith List Bool Lia Floats Reals Lra.
Import ListNotations.

Close Scope R_scope.
Set Implicit Arguments.

(* ================================================================== *)
(** * Part I: definitions *)
(* ================================================================== *)

(** ** Arithmetic

    The speed formula is written once, over a signature of the operations it
    uses, and read twice: over binary64, which is what the program computes,
    and over the real numbers, where the identities of the design document
    are stated. *)

Record Arith (T : Type) : Type := MkArith {
  num_two : T;
  num_mul : T -> T -> T;
  num_div : T -> T -> T;
  num_sqrt : T -> T
}.

Definition binary64 : Arith float := {|
  num_two := 2%float;
  num_mul := PrimFloat.mul;
  num_div := PrimFloat.div;
  num_sqrt := PrimFloat.sqrt
|}.

(** Exact arithmetic: a real number, or the invalid result that [numpy.sqrt]
    signals for a negative argument and division signals for a zero divisor.
    An invalid operand makes the result invalid, as [nan] does. *)
Inductive exact : Type :=
| Invalid
| Exact (r : R).

Definition exact_mul (a b : exact) : exact :=
  match a, b with
  | Exact x, Exact y => Exact (x * y)%R
  | _, _ => Invalid
  end.

Definition exact_div (a b : exact) : exact :=
  match a, b with
  | Exact x, Exact y => if Req_EM_T y 0%R then Invalid else Exact (x / y)%R
  | _, _ => Invalid
  end.

Definition exact_sqrt (a : exact) : exact :=
  match a with
  | Exact x => if Rlt_dec x 0%R then Invalid else Exact (R_sqrt.sqrt x)
  | Invalid => Invalid
  end.

Definition exact_arith : Arith exact := {|
  num_two := Exact 2%R;
  num_mul := exact_mul;
  num_div := exact_div;
  num_sqrt := exact_sqrt
|}.

(** ** [SimpleColAvoidLogic._find_speed_from_distance] *)

Section SpeedPlanner.

Context {T : Type} (num : Arith T).
Variable DECELERATION_RATE : T.

Local Notation "a * b" := (num_mul num a b).
Local Notation "a / b" := (num_div num a b).

Definition _find_speed_from_distance (distance : T) : T :=
  let deceleration_time :=
    num_sqrt num (distance * num_two num / DECELERATION_RATE) in
  let speed := deceleration_time * DECELERATION_RATE in
  speed.

End SpeedPlanner.

(** ** [expanding_indices]

    The generator is the list of the values it yields.  [expanding_loop] is
    the [while True] loop from a given [i]; it is [None] when the fuel runs
    out before the [break].  At the [k]-th test of the loop [|i| = k], so
    the [break] is reached at the latest when [|i|] exceeds both bounds:
    [expanding_fuel] iterations always suffice (lemma
    [expanding_loop_terminates]). *)

Open Scope Z_scope.

Fixpoint expanding_loop (fuel : nat) (start_index lower_bound upper_bound i : Z)
  : option (list Z) :=
  match fuel with
  | O => None
  | S fuel' =>
      let next := if i >=? 0 then i * -1 - 1 else i * -1 + 1 in
      if (lower_bound <=? i) && (i <? upper_bound) then
        option_map (cons (i + start_index))
          (expanding_loop fuel' start_index lower_bound upper_bound next)
      else if Z.abs i >? Z.max (Z.abs lower_bound) (Z.abs upper_bound) then
        Some []
      else
        expanding_loop fuel' start_index lower_bound upper_bound next
  end.

Definition expanding_fuel (lower_bound upper_bound : Z) : nat :=
  S (S (Z.to_nat (Z.max (Z.abs lower_bound) (Z.abs upper_bound)))).

Definition expanding_indices (start_index lower_bound upper_bound : Z) : list Z :=
  match expanding_loop (expanding_fuel lower_bound upper_bound)
          start_index lower_bound upper_bound 0 with
  | Some yielded => yielded
  | None => []
  end.


Close Scope Z_scope.

(** ** Data *)

Open Scope float_scope.

(** A position of an arc, and a point of the obstacle cloud: [(x, y)] in the
    frame of the vehicle, [y] pointing forward. *)
Definition point : Type := float * float.

(** [mathutils.Vector], built from a position.  (mathutils keeps its
    coordinates in single precision; the embedding abstracts from that, and
    the coordinates of the examples below are exact in single precision.) *)
Module Vector.
Record t : Type := mk { x : float; y : float }.
End Vector.

Definition Vector (p : point) : Vector.t := Vector.mk (fst p) (snd p).

(** [turn_table.Arc].  [logic.py] reads [positions]; the turn radius that an
    arc stands for is the attribute the design document gives it. *)
Record Arc : Type := MkArc {
  radius : float;
  positions : list point
}.

(** [scipy.spatial.KDTree], an external library, by its documented contract:
    [query_ball_point x r] lists the indices of the data points whose
    Euclidean distance to [x] is at most [r]. *)
Record KDTree : Type := MkKDTree { data : list point }.

Definition minkowski_distance (a b : point) : float :=
  PrimFloat.sqrt
    ((fst a - fst b) * (fst a - fst b) + (snd a - snd b) * (snd a - snd b)).

Definition query_ball_point (tree : KDTree) (x : point) (r : float) : list nat :=
  map fst
    (filter (fun entry => minkowski_distance (snd entry) x <=? r)
       (combine (seq 0 (length (data tree))) (data tree))).

(** What [DriveData.col_avoid_pointmap] may hold: Python does not type the
    attribute, and [get_end_of_arc] asserts that it is a [KDTree]. *)
Inductive pointmap : Type :=
| IsKDTree (tree : KDTree)
| NotKDTree.

Record DriveData : Type := MkDriveData {
  col_avoid_pointmap : pointmap;
  run_time : float
}.

(** ** Exceptions *)

Inductive exception : Type :=
| AssertionError
| ZeroDivisionError.

Inductive outcome (A : Type) : Type :=
| Returned (a : A)
| Raised (e : exception).

Arguments Raised {A} e.

Definition bind {A B : Type} (c : outcome A) (k : A -> outcome B) : outcome B :=
  match c with
  | Returned a => k a
  | Raised e => Raised e
  end.

Notation "x <- c ;; k" := (bind c (fun x => k))
  (at level 61, c at next level, right associativity).

(** ** [SimpleColAvoidLogic] *)

Record SimpleColAvoidLogic : Type := MkLogic {
  _data : DriveData;
  last_radius_index : Z;
  _current_turn_radius : float;
  _current_speed : float
}.

Definition set_current_turn_radius (v : float) (self : SimpleColAvoidLogic) :=
  {| _data := _data self;
     last_radius_index := last_radius_index self;
     _current_turn_radius := v;
     _current_speed := _current_speed self |}.

Definition set_current_speed (v : float) (self : SimpleColAvoidLogic) :=
  {| _data := _data self;
     last_radius_index := last_radius_index self;
     _current_turn_radius := _current_turn_radius self;
     _current_speed := v |}.

Definition target_turn_radius (self : SimpleColAvoidLogic) : float :=
  _current_turn_radius self.

Definition target_speed (self : SimpleColAvoidLogic) : float :=
  _current_speed self.

Section Controller.

Variable SAFE_DISTANCE : float.
Variable DECELERATION_RATE : float.
Variable turn_arcs : list Arc.

(** [__init__]: [int(len(turn_arcs) / 2)] is the integer half of the length. *)
Definition init (data : DriveData) : SimpleColAvoidLogic :=
  {| _data := data;
     last_radius_index := (Z.of_nat (length turn_arcs) / 2)%Z;
     _current_turn_radius := 0;
     _current_speed := 0 |}.

(** The [for pos in arc.positions] loop of [get_end_of_arc], from the
    positions still to walk and the current [last_safe_point]. *)
Fixpoint walk_positions (col_avoid_cloud : KDTree) (remaining : list point)
  (last_safe_point : option point) : option point :=
  match remaining with
  | [] => last_safe_point
  | pos :: rest =>
      let impinging_points := query_ball_point col_avoid_cloud pos SAFE_DISTANCE in
      if Nat.eqb (length impinging_points) 0 then
        walk_positions col_avoid_cloud rest (Some pos)
      else
        last_safe_point
  end.

Definition get_end_of_arc (self : SimpleColAvoidLogic) (arc : Arc)
  : outcome (option Vector.t) :=
  match col_avoid_pointmap (_data self) with
  | NotKDTree => Raised AssertionError
  | IsKDTree col_avoid_cloud =>
      let last_safe_point := walk_positions col_avoid_cloud (positions arc) None in
      Returned (option_map Vector last_safe_point)
  end.

(** The call [self._find_speed_from_distance(distance)]: the division
    [distance * 2 / DECELERATION_RATE] of two Python floats raises
    [ZeroDivisionError] when the divisor is zero, of either sign; otherwise
    the operations are those of binary64. *)
Definition call_find_speed_from_distance (distance : float) : outcome float :=
  if DECELERATION_RATE =? 0 then Raised ZeroDivisionError
  else Returned (_find_speed_from_distance binary64 DECELERATION_RATE distance).

(** The [for arc in turn_arcs] loop of [tic], from the arcs still to visit
    and the current [best_arc] and [best_distance]. *)
Fixpoint find_best_arc (self : SimpleColAvoidLogic) (remaining : list Arc)
  (best_arc : option Arc) (best_distance : float) : outcome (option Arc * float) :=
  match remaining with
  | [] => Returned (best_arc, best_distance)
  | arc :: rest =>
      end_ <- get_end_of_arc self arc ;;
      match end_ with
      | Some e =>
          if best_distance <? Vector.y e then
            find_best_arc self rest (Some arc) (Vector.y e)
          else
            find_best_arc self rest best_arc best_distance
      | None => find_best_arc self rest best_arc best_distance
      end
  end.

Definition tic (self : SimpleColAvoidLogic) : outcome SimpleColAvoidLogic :=
  best <- find_best_arc self turn_arcs None 0 ;;
  let (best_arc, best_distance) := best in
  match best_arc with
  | None =>
      Returned (set_current_speed 0 (set_current_turn_radius 0 self))
  | Some _ =>
      let free_space := best_distance - SAFE_DISTANCE in
      speed <- call_find_speed_from_distance free_space ;;
      Returned (set_current_speed speed self)
  end.

End Controller.

(** ** Inputs of the examples

    The margin and the rate of the scenarios of the design document. *)

Definition margin_1m : float := 1.
Definition rate_2ms2 : float := 2.

(** A catalog of three arcs, sharpest left to sharpest right around the
    straight one, three positions each. *)
Definition arc_left : Arc :=
  {| radius := -5; positions := [(-0.25, 1); (-0.5, 2); (-1, 3)] |}.
Definition arc_straight : Arc :=
  {| radius := 0; positions := [(0, 1); (0, 2); (0, 3)] |}.
Definition arc_right : Arc :=
  {| radius := 5; positions := [(0.25, 1); (0.5, 2); (1, 3)] |}.
Definition three_arcs : list Arc := [arc_left; arc_straight; arc_right].

(** The same with a sharper arc on either side. *)
Definition arc_sharp_left : Arc :=
  {| radius := -2.5; positions := [(-0.5, 1); (-1, 2); (-2, 3)] |}.
Definition arc_sharp_right : Arc :=
  {| radius := 2.5; positions := [(0.5, 1); (1, 2); (2, 3)] |}.
Definition five_arcs : list Arc :=
  [arc_sharp_left; arc_left; arc_straight; arc_right; arc_sharp_right].

(** The catalog of the first scenario of the design document: forward safe
    distances 4, 9 and 6 on an open road. *)
Definition scenario_left : Arc :=
  {| radius := -5; positions := [(-0.5, 2); (-2, 4)] |}.
Definition scenario_straight : Arc :=
  {| radius := 0; positions := [(0, 3); (0, 6); (0, 9)] |}.
Definition scenario_right : Arc :=
  {| radius := 5; positions := [(0.5, 3); (2, 6)] |}.
Definition scenario_arcs : list Arc :=
  [scenario_left; scenario_straight; scenario_right].

(** A straight arc sampled every half metre, and one that starts at the
    vehicle itself. *)
Definition arc_fine : Arc :=
  {| radius := 0; positions := [(0, 0.5); (0, 1); (0, 1.5); (0, 2)] |}.
Definition arc_from_origin : Arc :=
  {| radius := 0; positions := [(0, 0); (0, 1); (0, 2)] |}.

(** Obstacle clouds. *)
Definition drive_data (cloud : list point) : DriveData :=
  {| col_avoid_pointmap := IsKDTree (MkKDTree cloud); run_time := 0 |}.

(** An open road: the nearest obstacle is 100 m ahead. *)
Definition open_road : DriveData := drive_data [(0, 100)].
Definition obstacle_ahead_left : DriveData := drive_data [(-0.5, 3)].
Definition obstacle_at_2m : DriveData := drive_data [(0, 2)].
Definition obstacle_at_1m : DriveData := drive_data [(0, 1)].
Definition obstacle_at_1m50 : DriveData := drive_data [(0, 1.5)].

(** A controller that drove at 2.5 m/s in the tick before. *)
Definition cruising (turn_arcs : list Arc) (data : DriveData) : SimpleColAvoidLogic :=
  set_current_speed 2.5 (init turn_arcs data).

(** The same controller with another seed for the order of the scan. *)
Definition with_last_radius_index (index : Z) (self : SimpleColAvoidLogic)
  : SimpleColAvoidLogic :=
  {| _data := _data self;
     last_radius_index := index;
     _current_turn_radius := _current_turn_radius self;
     _current_speed := _current_speed self |}.

(** A catalog is well formed when its coordinates are numbers. *)
Definition position_is_number (p : point) : bool :=
  negb (is_nan (fst p)) && negb (is_nan (snd p)).

Definition catalog_is_numeric (arcs : list Arc) : bool :=
  forallb (fun arc => forallb position_is_number (positions arc)) arcs.

(** ** The other logic classes

    [Logic] is the abstract class; [SimpleTestLogic] and
    [StaticWheelTurnLogic] are scripted by the run time alone.  A method of
    these classes returns, or raises [NotImplementedError]. *)

Inductive supported (A : Type) : Type :=
| Supported (a : A)
| NotImplementedError.

Arguments NotImplementedError {A}.

Module Logic.

Record t : Type := new { _data : DriveData }.

Definition tic (self : t) : supported t := NotImplementedError.

Definition target_speed (self : t) : supported float := NotImplementedError.

Definition target_turn_radius (self : t) : supported float := NotImplementedError.

End Logic.

Module SimpleTestLogic.

(** [tic] has a docstring for a body: it does nothing. *)
Definition tic (self : Logic.t) : supported Logic.t := Supported self.

(** The literal [0.1] is the binary64 number 0x1.999999999999ap-4. *)
Definition target_speed (self : Logic.t) : supported float :=
  if (15 <? run_time (Logic._data self)) && (run_time (Logic._data self) <? 20)
  then Supported 0x1.999999999999ap-4
  else Supported 0.

Definition target_turn_radius (self : Logic.t) : supported float :=
  if (0 <? run_time (Logic._data self)) && (run_time (Logic._data self) <? 5)
  then Supported (-5)
  else if (5 <? run_time (Logic._data self)) && (run_time (Logic._data self) <? 10)
  then Supported 5
  else Supported 0.

End SimpleTestLogic.

Module StaticWheelTurnLogic.

(** The class defines no [tic]: the call resolves to [Logic.tic]. *)
Definition tic (self : Logic.t) : supported Logic.t := Logic.tic self.

Definition target_speed (self : Logic.t) : supported float := Supported 0.

Definition target_turn_radius (self : Logic.t) : supported float :=
  if (0 <? run_time (Logic._data self)) && (run_time (Logic._data self) <? 5)
  then Supported (-5)
  else if (5 <? run_time (Logic._data self)) && (run_time (Logic._data self) <? 10)
  then Supported 5
  else Supported 0.

End StaticWheelTurnLogic.

(** A scripted logic at a given run time. *)
Definition at_run_time (seconds : float) : Logic.t :=
  Logic.new {| col_avoid_pointmap := NotKDTree; run_time := seconds |}.

(** ** Notions for the further properties *)

(** The offsets that the loop of [expanding_indices] goes through: 0, -1, 2,
    -3, 4, ...: the even ones on the upper side, the odd ones on the lower. *)
Definition offset_is_reached (i : Z) : bool :=
  if (i >=? 0)%Z then Z.even i else Z.odd i.

(** The last element of a list, if any. *)
Definition last_position (l : list point) : option point :=
  match l with
  | [] => None
  | p :: rest => Some (last rest p)
  end.

Close Scope float_scope.
Unset Implicit Arguments.

(* ================================================================== *)
(** * Part II: properties *)
(* ================================================================== *)

(** ** The traversal helper *)

Section ExpandingIndices.

Open Scope Z_scope.

Variables start_index lower_bound upper_bound : Z.

Let bound : Z := Z.max (Z.abs lower_bound) (Z.abs upper_bound).
Let loop (fuel : nat) (i : Z) : option (list Z) :=
  expanding_loop fuel start_index lower_bound upper_bound i.

(** One more iteration than needed changes nothing. *)
Lemma expanding_loop_more_fuel (fuel : nat) :
  forall i yielded,
    loop fuel i = Some yielded -> loop (S fuel) i = Some yielded.
Proof.
  unfold loop.
  induction fuel as [|fuel IH]; intros i yielded H; [discriminate|].
  cbn [expanding_loop] in H.
  remember (S fuel) as fuel1.
  cbn [expanding_loop].
  destruct ((lower_bound <=? i) && (i <? upper_bound)).
  - destruct (expanding_loop fuel _ _ _ _) as [tl|] eqn:E; [|discriminate].
    rewrite (IH _ _ E). exact H.
  - destruct (Z.abs i >? _); [exact H|].
    apply IH; exact H.
Qed.

Lemma expanding_loop_fuel_le (fuel fuel' : nat) (i : Z) (yielded : list Z) :
  (fuel <= fuel')%nat ->
  loop fuel i = Some yielded -> loop fuel' i = Some yielded.
Proof.
  induction 1 as [|fuel' _ IH]; intro H; [exact H|].
  apply expanding_loop_more_fuel, IH, H.
Qed.

(** The loop reaches its [break]: from an [i] at distance [|i|] of the origin,
    [bound + 2 - |i|] iterations are enough. *)
Lemma expanding_loop_returns (fuel : nat) :
  forall i,
    Z.abs i <= bound + 1 ->
    (Z.to_nat (bound + 2 - Z.abs i) <= fuel)%nat ->
    exists yielded, loop fuel i = Some yielded.
Proof.
  unfold loop, bound.
  induction fuel as [|fuel IH]; intros i Hi Hfuel; [lia|].
  cbn [expanding_loop].
  destruct ((lower_bound <=? i) && (i <? upper_bound)) eqn:Hin.
  - apply andb_true_iff in Hin; destruct Hin as [Hl Hu].
    apply Z.leb_le in Hl; apply Z.ltb_lt in Hu.
    destruct (IH (if i >=? 0 then i * -1 - 1 else i * -1 + 1)) as [tl Htl].
    + destruct (Z.geb_spec i 0); lia.
    + destruct (Z.geb_spec i 0); lia.
    + rewrite Htl; eexists; reflexivity.
  - destruct (Z.gtb_spec (Z.abs i)
                (Z.max (Z.abs lower_bound) (Z.abs upper_bound))) as [Hout|Hnear].
    + eexists; reflexivity.
    + apply IH; destruct (Z.geb_spec i 0); lia.
Qed.

(** The generator is finite, and its list does not depend on the fuel. *)
Lemma expanding_loop_terminates :
  forall fuel, (expanding_fuel lower_bound upper_bound <= fuel)%nat ->
    loop fuel 0 = Some (expanding_indices start_index lower_bound upper_bound).
Proof.
  intros fuel Hfuel.
  destruct (expanding_loop_returns (expanding_fuel lower_bound upper_bound) 0)
    as [yielded Hy].
  - unfold bound; lia.
  - unfold expanding_fuel, bound; lia.
  - unfold expanding_indices. unfold loop in Hy. rewrite Hy.
    apply (expanding_loop_fuel_le _ _ _ _ Hfuel Hy).
Qed.

(** What is yielded lies between the bounds, the upper one excluded, and
    not nearer to the start than the current [i]. *)
Lemma expanding_loop_yields (fuel : nat) :
  forall i yielded,
    loop fuel i = Some yielded ->
    forall k, In k yielded ->
      lower_bound <= k - start_index < upper_bound /\
      Z.abs i <= Z.abs (k - start_index).
Proof.
  unfold loop.
  induction fuel as [|fuel IH]; intros i yielded H k Hk; [discriminate|].
  cbn [expanding_loop] in H.
  destruct ((lower_bound <=? i) && (i <? upper_bound)) eqn:Hin.
  - destruct (expanding_loop fuel _ _ _ _) as [tl|] eqn:E; [|discriminate].
    injection H as <-.
    apply andb_true_iff in Hin; destruct Hin as [Hl Hu].
    apply Z.leb_le in Hl; apply Z.ltb_lt in Hu.
    destruct Hk as [<-|Hk].
    + split; lia.
    + destruct (IH _ _ E k Hk) as [Hr Hd]. split; [exact Hr|].
      destruct (Z.geb_spec i 0); lia.
  - destruct (Z.abs i >? _).
    + injection H as <-. destruct Hk.
    + destruct (IH _ _ H k Hk) as [Hr Hd]. split; [exact Hr|].
      destruct (Z.geb_spec i 0); lia.
Qed.


(** In general: every index of [expanding_indices] is [start_index + i] for
    an [i] between the bounds, and no index comes twice. *)
Lemma expanding_indices_in_bounds (k : Z) :
  In k (expanding_indices start_index lower_bound upper_bound) ->
  start_index + lower_bound <= k < start_index + upper_bound.
Proof.
  intro Hk.
  pose proof (expanding_loop_terminates _ (Nat.le_refl _)) as Hloop.
  destruct (expanding_loop_yields _ _ _ Hloop _ Hk) as [Hr _]. lia.
Qed.



End ExpandingIndices.




(** ** The order of binary64

    The comparisons of [float] are those of the specification [SFcompare]
    on [spec_float]: a lexicographic order on sign, exponent and mantissa, in
    which [nan] compares with nothing. *)

Module FloatOrder.

Ltac sf_cases :=
  repeat match goal with
  | s : bool |- _ => destruct s
  | |- context [Z.compare ?a ?b] => destruct (Z.compare_spec a b)
  | H : context [Z.compare ?a ?b] |- _ => destruct (Z.compare_spec a b)
  | |- context [PosDef.Pos.compare_cont Eq ?a ?b] =>
      change (PosDef.Pos.compare_cont Eq a b) with (Pos.compare a b);
      destruct (Pos.compare_spec a b)
  | H : context [PosDef.Pos.compare_cont Eq ?a ?b] |- _ =>
      change (PosDef.Pos.compare_cont Eq a b) with (Pos.compare a b) in H;
      destruct (Pos.compare_spec a b)
  end; simpl in *; try congruence; try lia.

Ltac sf_order :=
  unfold SFltb, SFleb, SFeqb;
  repeat match goal with x : spec_float |- _ => destruct x end;
  simpl; sf_cases.

Lemma SFltb_SFleb_false (x y : spec_float) :
  SFltb x y = true -> SFleb y x = false.
Proof. sf_order. Qed.

Lemma SFleb_SFltb_false (x y : spec_float) :
  SFleb x y = true -> SFltb y x = false.
Proof. sf_order. Qed.

Lemma SFltb_SFleb (x y : spec_float) :
  SFltb x y = true -> SFleb x y = true.
Proof. sf_order. Qed.

Lemma SFleb_total (x y : spec_float) :
  SFltb x y = false -> SFeqb x x = true -> SFeqb y y = true -> SFleb y x = true.
Proof. sf_order. Qed.

Lemma SFleb_refl (x : spec_float) : SFeqb x x = true -> SFleb x x = true.
Proof. sf_order. Qed.

Lemma SFleb_trans (x y z : spec_float) :
  SFleb x y = true -> SFleb y z = true -> SFleb x z = true.
Proof. sf_order. Qed.

Lemma SFleb_SFltb_trans (x y z : spec_float) :
  SFleb x y = true -> SFltb y z = true -> SFltb x z = true.
Proof. sf_order. Qed.

Lemma SFltb_SFleb_trans (x y z : spec_float) :
  SFltb x y = true -> SFleb y z = true -> SFltb x z = true.
Proof. sf_order. Qed.

Lemma SFltb_number_r (x y : spec_float) :
  SFltb x y = true -> SFeqb y y = true.
Proof. sf_order. Qed.

Open Scope float_scope.

Lemma is_number (x : float) :
  is_nan x = false -> SFeqb (Prim2SF x) (Prim2SF x) = true.
Proof.
  unfold is_nan. rewrite eqb_spec. destruct (SFeqb _ _); [reflexivity|discriminate].
Qed.

Ltac to_spec :=
  repeat match goal with
  | H : is_nan _ = false |- _ => apply is_number in H
  end;
  unfold is_nan in *; rewrite ?ltb_spec, ?leb_spec, ?eqb_spec in *.

Lemma ltb_not_leb (x y : float) : (x <? y) = true -> (y <=? x) = false.
Proof. to_spec. apply SFltb_SFleb_false. Qed.

Lemma leb_not_ltb (x y : float) : (x <=? y) = true -> (y <? x) = false.
Proof. to_spec. apply SFleb_SFltb_false. Qed.

Lemma ltb_leb (x y : float) : (x <? y) = true -> (x <=? y) = true.
Proof. to_spec. apply SFltb_SFleb. Qed.

Lemma not_ltb_leb (x y : float) :
  (x <? y) = false -> is_nan x = false -> is_nan y = false -> (y <=? x) = true.
Proof. intros H Hx Hy. to_spec. apply SFleb_total; assumption. Qed.

Lemma leb_refl (x : float) : is_nan x = false -> (x <=? x) = true.
Proof. intro Hx. to_spec. apply SFleb_refl; assumption. Qed.

Lemma leb_trans (x y z : float) :
  (x <=? y) = true -> (y <=? z) = true -> (x <=? z) = true.
Proof. to_spec. apply SFleb_trans. Qed.

Lemma leb_ltb_trans (x y z : float) :
  (x <=? y) = true -> (y <? z) = true -> (x <? z) = true.
Proof. to_spec. apply SFleb_SFltb_trans. Qed.

Lemma ltb_leb_trans (x y z : float) :
  (x <? y) = true -> (y <=? z) = true -> (x <? z) = true.
Proof. to_spec. apply SFltb_SFleb_trans. Qed.

Lemma ltb_number_r (x y : float) : (x <? y) = true -> is_nan y = false.
Proof.
  intro H. to_spec. apply SFltb_number_r in H. rewrite H. reflexivity.
Qed.

End FloatOrder.

(** ** The speed planner *)

(** In binary64 the speed for the 8 m of the first scenario is the rounded
    square root of 8, doubled: 5.6568542494923806. *)
Lemma speed_of_8m :
  (_find_speed_from_distance binary64 2 8 =? 0x1.6a09e667f3bcdp+2)%float = true.
Proof. reflexivity. Qed.


Section SpeedPlannerExact.

Open Scope R_scope.

Variable a : R.
Hypothesis a_positive : 0 < a.



End SpeedPlannerExact.

(** The exact reading does not clamp either: a negative free distance has
    no speed. *)
Lemma speed_exact_negative :
  _find_speed_from_distance exact_arith (Exact 2) (Exact (-1 / 2)) = Invalid.
Proof.
  unfold _find_speed_from_distance. cbn.
  destruct (Req_EM_T 2 0) as [E|_]; [lra|]. cbn.
  destruct (Rlt_dec (-1 / 2 * 2 / 2) 0) as [_|Hpos]; [reflexivity|].
  exfalso. apply Hpos. lra.
Qed.



(** ** The obstacle index *)

Section ObstacleIndex.

Open Scope float_scope.

Variable tree : KDTree.
Variable x : point.
Variable r : float.

Lemma filter_none {A : Type} (f : A -> bool) (l : list A) :
  (forall e, In e l -> f e = false) -> filter f l = [].
Proof.
  induction l as [|e l IH]; intro H; [reflexivity|].
  cbn. rewrite (H e (or_introl eq_refl)). apply IH.
  intros e' He'. apply H. right. exact He'.
Qed.

Lemma In_indexed {A : Type} (l : list A) (q : A) :
  In q l -> forall s, exists i, In (i, q) (combine (seq s (length l)) l).
Proof.
  induction l as [|e l IH]; intros Hq s; [destruct Hq|].
  destruct Hq as [->|Hq].
  - exists s. left. reflexivity.
  - destruct (IH Hq (S s)) as [i Hi]. exists i. right. exact Hi.
Qed.

(** No data point in the closed ball: the query returns no index. *)
Lemma query_ball_point_empty :
  (forall q, In q (data tree) -> (minkowski_distance q x <=? r) = false) ->
  query_ball_point tree x r = [].
Proof.
  intro H. unfold query_ball_point. rewrite filter_none; [reflexivity|].
  intros [i q] Hin. apply H. exact (in_combine_r _ _ _ _ Hin).
Qed.

(** A data point in the closed ball: the query returns at least its index. *)
Lemma query_ball_point_hit (q : point) :
  In q (data tree) -> (minkowski_distance q x <=? r) = true ->
  Nat.eqb (length (query_ball_point tree x r)) 0 = false.
Proof.
  intros Hq Hd. destruct (In_indexed _ _ Hq 0%nat) as [i Hi].
  unfold query_ball_point.
  assert (Hin : In i (map fst
            (filter (fun entry => minkowski_distance (snd entry) x <=? r)
               (combine (seq 0 (length (data tree))) (data tree))))).
  { apply in_map_iff. exists (i, q). split; [reflexivity|].
    apply filter_In. split; [exact Hi|exact Hd]. }
  destruct (map fst _); [destruct Hin|reflexivity].
Qed.

End ObstacleIndex.

(** ** The arc safety evaluator *)

Section Evaluator.

Open Scope float_scope.

Variable SAFE_DISTANCE : float.
Variable self : SimpleColAvoidLogic.
Variable col_avoid_cloud : KDTree.
Hypothesis cloud_is_KDTree :
  col_avoid_pointmap (_data self) = IsKDTree col_avoid_cloud.

Lemma get_end_of_arc_walk (arc : Arc) :
  get_end_of_arc SAFE_DISTANCE self arc
    = Returned (option_map Vector
                  (walk_positions SAFE_DISTANCE col_avoid_cloud (positions arc) None)).
Proof. unfold get_end_of_arc. rewrite cloud_is_KDTree. reflexivity. Qed.

Lemma last_cons {A : Type} (l : list A) :
  forall a default, last (a :: l) default = last l a.
Proof.
  induction l as [|b l IH]; intros a default; [reflexivity|].
  change (last (a :: b :: l) default) with (last (b :: l) default).
  rewrite (IH b default), (IH b a). reflexivity.
Qed.

(** On positions that are all clear the walk ends at the last of them. *)
Lemma walk_positions_clear (remaining : list point) :
  (forall pos q, In pos remaining -> In q (data col_avoid_cloud) ->
     (SAFE_DISTANCE <? minkowski_distance q pos) = true) ->
  forall pos0,
    walk_positions SAFE_DISTANCE col_avoid_cloud remaining (Some pos0)
      = Some (last remaining pos0).
Proof.
  induction remaining as [|pos rest IH]; intros Hclear pos0; [reflexivity|].
  cbn [walk_positions].
  rewrite query_ball_point_empty.
  - cbn [length Nat.eqb]. rewrite IH.
    + rewrite last_cons. reflexivity.
    + intros p q Hp Hq. apply Hclear; [right; exact Hp|exact Hq].
  - intros q Hq. apply FloatOrder.ltb_not_leb.
    apply Hclear; [left; reflexivity|exact Hq].
Qed.

(** The walk hands back a position of the arc, or what it started from. *)
Lemma walk_positions_In (remaining : list point) :
  forall start pos,
    walk_positions SAFE_DISTANCE col_avoid_cloud remaining start = Some pos ->
    start = Some pos \/ In pos remaining.
Proof.
  induction remaining as [|p rest IH]; intros start pos H.
  - left. exact H.
  - cbn [walk_positions] in H.
    destruct (Nat.eqb _ 0).
    + destruct (IH _ _ H) as [E|Hin].
      * injection E as ->. right. left. reflexivity.
      * right. right. exact Hin.
    + left. exact H.
Qed.

Lemma get_end_of_arc_position (arc : Arc) (e : Vector.t) :
  get_end_of_arc SAFE_DISTANCE self arc = Returned (Some e) ->
  exists pos, In pos (positions arc) /\ e = Vector pos.
Proof.
  rewrite get_end_of_arc_walk. intro H. injection H as H.
  destruct (walk_positions _ _ _ _) as [pos|] eqn:E; [|discriminate].
  injection H as <-. exists pos. split; [|reflexivity].
  destruct (walk_positions_In _ _ _ E) as [E'|Hin]; [discriminate|exact Hin].
Qed.

End Evaluator.

(** C8: on a non-empty arc whose positions are all farther than the safety
    margin from every point of the obstacle cloud, [get_end_of_arc] returns
    the last position of the arc. *)
Theorem get_end_of_arc_all_clear
  (SAFE_DISTANCE : float) (self : SimpleColAvoidLogic) (col_avoid_cloud : KDTree)
  (arc : Arc) (default : point) :
  col_avoid_pointmap (_data self) = IsKDTree col_avoid_cloud ->
  positions arc <> [] ->
  (forall pos q, In pos (positions arc) -> In q (data col_avoid_cloud) ->
     (SAFE_DISTANCE <? minkowski_distance q pos)%float = true) ->
  get_end_of_arc SAFE_DISTANCE self arc
    = Returned (Some (Vector (last (positions arc) default))).
Proof.
  intros Hcloud Hne Hclear.
  rewrite (get_end_of_arc_walk _ _ _ Hcloud).
  destruct (positions arc) as [|pos rest] eqn:E; [contradiction|].
  cbn [walk_positions].
  rewrite query_ball_point_empty.
  - cbn [length Nat.eqb]. rewrite walk_positions_clear.
    + rewrite last_cons. reflexivity.
    + intros p q Hp Hq. apply Hclear; [right; exact Hp|exact Hq].
  - intros q Hq. apply FloatOrder.ltb_not_leb.
    apply Hclear; [left; reflexivity|exact Hq].
Qed.

(** C9: on an arc whose first position is within the safety margin of some
    point of the obstacle cloud, [get_end_of_arc] returns [None], whatever
    the positions after the first. *)
Theorem get_end_of_arc_first_unsafe
  (SAFE_DISTANCE : float) (self : SimpleColAvoidLogic) (col_avoid_cloud : KDTree)
  (arc : Arc) (first : point) (rest : list point) (q : point) :
  col_avoid_pointmap (_data self) = IsKDTree col_avoid_cloud ->
  positions arc = first :: rest ->
  In q (data col_avoid_cloud) ->
  (minkowski_distance q first <=? SAFE_DISTANCE)%float = true ->
  get_end_of_arc SAFE_DISTANCE self arc = Returned None.
Proof.
  intros Hcloud Hpos Hq Hnear.
  rewrite (get_end_of_arc_walk _ _ _ Hcloud), Hpos.
  cbn [walk_positions].
  rewrite (query_ball_point_hit _ _ _ _ Hq Hnear). reflexivity.
Qed.

(** ** The arc selector *)

Section Selector.

Open Scope float_scope.

Variable SAFE_DISTANCE : float.
Variable self : SimpleColAvoidLogic.

Let end_of (arc : Arc) : outcome (option Vector.t) :=
  get_end_of_arc SAFE_DISTANCE self arc.

(** The evaluator reads nothing of the controller but its data. *)
Lemma get_end_of_arc_same_data (other : SimpleColAvoidLogic) (arc : Arc) :
  _data other = _data self ->
  get_end_of_arc SAFE_DISTANCE other arc = end_of arc.
Proof. intro H. unfold end_of, get_end_of_arc. rewrite H. reflexivity. Qed.

(** So does the scan: [last_radius_index] is not read. *)
Lemma find_best_arc_same_data (other : SimpleColAvoidLogic) (remaining : list Arc) :
  _data other = _data self ->
  forall best_arc best_distance,
    find_best_arc SAFE_DISTANCE other remaining best_arc best_distance
      = find_best_arc SAFE_DISTANCE self remaining best_arc best_distance.
Proof.
  intro H. induction remaining as [|arc rest IH]; intros best_arc best_distance;
    [reflexivity|].
  cbn [find_best_arc]. rewrite (get_end_of_arc_same_data _ _ H). unfold end_of.
  destruct (get_end_of_arc SAFE_DISTANCE self arc) as [[e|]|exc]; cbn [bind];
    [|apply IH|reflexivity].
  destruct (best_distance <? Vector.y e); apply IH.
Qed.

Lemma get_end_of_arc_numeric (arc : Arc) (e : Vector.t) :
  forallb position_is_number (positions arc) = true ->
  end_of arc = Returned (Some e) ->
  is_nan (Vector.y e) = false.
Proof.
  intros Hnum He. unfold end_of in He.
  destruct (col_avoid_pointmap (_data self)) as [tree|] eqn:Hcloud.
  - destruct (get_end_of_arc_position _ _ _ Hcloud _ _ He) as [pos [Hin ->]].
    rewrite forallb_forall in Hnum. specialize (Hnum pos Hin).
    unfold position_is_number in Hnum.
    apply andb_true_iff in Hnum. destruct Hnum as [_ Hy].
    cbn. destruct (is_nan (snd pos)); [discriminate|reflexivity].
  - unfold get_end_of_arc in He. rewrite Hcloud in He. discriminate.
Qed.

(** The scan, from any accumulator.  Its distance is at least the one it
    started with and at least the forward distance of every arc it visits;
    and either it hands back the accumulator, or it hands back an arc of the
    list whose forward distance is the result and is strictly beyond the
    accumulator and beyond every arc that precedes it in the list. *)
Lemma find_best_arc_spec (remaining : list Arc) :
  forall best_arc best_distance res_arc d,
    catalog_is_numeric remaining = true ->
    is_nan best_distance = false ->
    find_best_arc SAFE_DISTANCE self remaining best_arc best_distance
      = Returned (res_arc, d) ->
    (best_distance <=? d) = true /\
    (forall arc' e', In arc' remaining -> end_of arc' = Returned (Some e') ->
       (Vector.y e' <=? d) = true) /\
    ((res_arc = best_arc /\ d = best_distance) \/
     (exists before arc after e,
        res_arc = Some arc /\ remaining = before ++ arc :: after /\
        end_of arc = Returned (Some e) /\ Vector.y e = d /\
        (best_distance <? d) = true /\
        forall arc' e', In arc' before -> end_of arc' = Returned (Some e') ->
          (Vector.y e' <? d) = true)).
Proof.
  induction remaining as [|arc rest IH];
    intros best_arc best_distance res_arc d Hnum Hbest H.
  - injection H as <- <-.
    split; [apply FloatOrder.leb_refl; exact Hbest|].
    split; [intros ? ? []|]. left. split; reflexivity.
  - cbn [catalog_is_numeric forallb] in Hnum.
    apply andb_true_iff in Hnum. destruct Hnum as [Hnum_arc Hnum_rest].
    cbn [find_best_arc] in H. fold (end_of arc) in H.
    destruct (end_of arc) as [[e|]|exc] eqn:He; cbn [bind] in H; [| |discriminate].
    + pose proof (get_end_of_arc_numeric _ _ Hnum_arc He) as Hy.
      destruct (best_distance <? Vector.y e) eqn:Hlt.
      * destruct (IH _ _ _ _ Hnum_rest Hy H) as [Hle [Hall Hres]].
        split; [exact (FloatOrder.leb_trans _ _ _ (FloatOrder.ltb_leb _ _ Hlt) Hle)|].
        split.
        { intros arc' e' [<-|Hin] He'.
          - rewrite He in He'. injection He' as <-. exact Hle.
          - exact (Hall _ _ Hin He'). }
        right. destruct Hres as [[-> ->]|(before & a & after & e2 & -> & -> & Ha & <- & Hlt2 & Hbefore)].
        { exists [], arc, rest, e.
          repeat split; try assumption. intros ? ? []. }
        { exists (arc :: before), a, after, e2.
          repeat split; try assumption.
          - exact (FloatOrder.ltb_leb_trans _ _ _ Hlt (FloatOrder.ltb_leb _ _ Hlt2)).
          - intros arc' e' [<-|Hin] He'.
            + rewrite He in He'. injection He' as <-. exact Hlt2.
            + exact (Hbefore _ _ Hin He'). }
      * pose proof (FloatOrder.not_ltb_leb _ _ Hlt Hbest Hy) as Hle_e.
        destruct (IH _ _ _ _ Hnum_rest Hbest H) as [Hle [Hall Hres]].
        split; [exact Hle|]. split.
        { intros arc' e' [<-|Hin] He'.
          - rewrite He in He'. injection He' as <-.
            exact (FloatOrder.leb_trans _ _ _ Hle_e Hle).
          - exact (Hall _ _ Hin He'). }
        destruct Hres as [Hsame|(before & a & after & e2 & -> & -> & Ha & <- & Hlt2 & Hbefore)];
          [left; exact Hsame|right].
        exists (arc :: before), a, after, e2.
        repeat split; try assumption.
        intros arc' e' [<-|Hin] He'.
        { rewrite He in He'. injection He' as <-.
          exact (FloatOrder.leb_ltb_trans _ _ _ Hle_e Hlt2). }
        { exact (Hbefore _ _ Hin He'). }
    + destruct (IH _ _ _ _ Hnum_rest Hbest H) as [Hle [Hall Hres]].
      split; [exact Hle|]. split.
      { intros arc' e' [<-|Hin] He'.
        - rewrite He in He'. discriminate.
        - exact (Hall _ _ Hin He'). }
      destruct Hres as [Hsame|(before & a & after & e2 & -> & -> & Ha & <- & Hlt2 & Hbefore)];
        [left; exact Hsame|right].
      exists (arc :: before), a, after, e2.
      repeat split; try assumption.
      intros arc' e' [<-|Hin] He'.
      { rewrite He in He'. discriminate. }
      { exact (Hbefore _ _ Hin He'). }
Qed.

(** When no arc has a safe point strictly beyond the accumulator, the scan
    hands the accumulator back. *)
Lemma find_best_arc_unchanged (remaining : list Arc) :
  forall best_arc best_distance,
    (forall arc, In arc remaining ->
       end_of arc = Returned None \/
       exists e, end_of arc = Returned (Some e) /\
                 (best_distance <? Vector.y e) = false) ->
    find_best_arc SAFE_DISTANCE self remaining best_arc best_distance
      = Returned (best_arc, best_distance).
Proof.
  induction remaining as [|arc rest IH]; intros best_arc best_distance H;
    [reflexivity|].
  cbn [find_best_arc]. fold (end_of arc).
  destruct (H arc (or_introl eq_refl)) as [->|[e [-> Hnot]]]; cbn [bind].
  - apply IH. intros a Ha. apply H. right. exact Ha.
  - rewrite Hnot. apply IH. intros a Ha. apply H. right. exact Ha.
Qed.

End Selector.

(** C6: when the scan of [tic] chooses an arc of a catalog whose coordinates
    are numbers, the forward distance of the safe point of that arc is
    greater than or equal to the forward distance of the safe point of every
    arc of the catalog. *)
Theorem chosen_arc_is_farthest
  (SAFE_DISTANCE : float) (turn_arcs : list Arc) (self : SimpleColAvoidLogic)
  (arc : Arc) (d : float) :
  catalog_is_numeric turn_arcs = true ->
  find_best_arc SAFE_DISTANCE self turn_arcs None 0 = Returned (Some arc, d) ->
  In arc turn_arcs /\
  (exists e, get_end_of_arc SAFE_DISTANCE self arc = Returned (Some e) /\
             Vector.y e = d) /\
  (forall arc' e',
     In arc' turn_arcs ->
     get_end_of_arc SAFE_DISTANCE self arc' = Returned (Some e') ->
     (Vector.y e' <=? d)%float = true).
Proof.
  intros Hnum H.
  destruct (find_best_arc_spec _ _ _ _ _ _ _ Hnum (eq_refl : is_nan 0 = false) H)
    as [_ [Hall [[Hnone _]|(before & a & after & e & Ha & -> & He & Hd & _ & _)]]];
    [discriminate|].
  injection Ha as <-.
  split; [apply in_or_app; right; left; reflexivity|].
  split; [exists e; split; assumption|exact Hall].
Qed.

Lemma chosen_arc_is_farthest_witness :
  catalog_is_numeric scenario_arcs = true /\
  find_best_arc margin_1m (init scenario_arcs open_road) scenario_arcs None 0
    = Returned (Some scenario_straight, 9%float) /\
  (forall arc' e',
     In arc' scenario_arcs ->
     get_end_of_arc margin_1m (init scenario_arcs open_road) arc'
       = Returned (Some e') ->
     (Vector.y e' <=? 9)%float = true).
Proof.
  split; [reflexivity|]. split; [reflexivity|].
  apply (chosen_arc_is_farthest margin_1m scenario_arcs
           (init scenario_arcs open_road) scenario_straight 9%float);
    reflexivity.
Defined.

(** C3, as the design document states it, fails.  On an open road the five
    arcs of the catalog all reach 3 m; the seed [last_radius_index] is 2, the
    straight arc, where an expanding order begins; the scan of [tic] keeps
    index 0, the sharpest left arc, the first in the order of the catalog. *)
Lemma scan_is_not_expanding :
  last_radius_index (init five_arcs open_road) = 2%Z /\
  hd_error (expanding_indices 2 (-2) 3) = Some 2%Z /\
  nth_error five_arcs 2 = Some arc_straight /\
  nth_error five_arcs 0 = Some arc_sharp_left /\
  map (get_end_of_arc margin_1m (init five_arcs open_road)) five_arcs
    = map (fun p => Returned (Some (Vector p)))
        [(-2, 3); (-1, 3); (0, 3); (1, 3); (2, 3)]%float /\
  find_best_arc margin_1m (init five_arcs open_road) five_arcs None 0
    = Returned (Some arc_sharp_left, 3%float).
Proof. repeat split. Qed.

(** C3, amended: the scan of [tic] runs in the order of the catalog and does
    not read [last_radius_index].  On a catalog whose coordinates are
    numbers, the arc it chooses is the first arc of the catalog with the
    greatest forward distance: the distance it reports is the forward
    coordinate of the safe point of that arc, every arc before it is
    strictly shorter and every arc after it is at most as long, so that arcs
    of equal distance resolve to the lowest index; every arc of the catalog
    is taken into account. *)
Theorem scan_in_catalog_order
  (SAFE_DISTANCE : float) (turn_arcs : list Arc)
  (self other : SimpleColAvoidLogic) (arc : Arc) (d : float) :
  catalog_is_numeric turn_arcs = true ->
  _data other = _data self ->
  find_best_arc SAFE_DISTANCE self turn_arcs None 0 = Returned (Some arc, d) ->
  find_best_arc SAFE_DISTANCE other turn_arcs None 0 = Returned (Some arc, d) /\
  exists before after e,
    turn_arcs = before ++ arc :: after /\
    get_end_of_arc SAFE_DISTANCE self arc = Returned (Some e) /\
    Vector.y e = d /\
    (forall arc' e',
       In arc' before ->
       get_end_of_arc SAFE_DISTANCE self arc' = Returned (Some e') ->
       (Vector.y e' <? d)%float = true) /\
    (forall arc' e',
       In arc' after ->
       get_end_of_arc SAFE_DISTANCE self arc' = Returned (Some e') ->
       (Vector.y e' <=? d)%float = true).
Proof.
  intros Hnum Hdata H.
  split; [rewrite (find_best_arc_same_data _ _ _ _ Hdata); exact H|].
  destruct (find_best_arc_spec _ _ _ _ _ _ _ Hnum (eq_refl : is_nan 0 = false) H)
    as [_ [Hall [[Hnone _]|(before & a & after & e & Ha & -> & He & Hd & _ & Hbefore)]]];
    [discriminate|].
  injection Ha as <-. exists before, after, e.
  split; [reflexivity|]. split; [exact He|]. split; [exact Hd|].
  split; [exact Hbefore|].
  intros arc' e' Hin. apply Hall. apply in_or_app. right. right. exact Hin.
Qed.

Lemma scan_in_catalog_order_witness :
  catalog_is_numeric five_arcs = true /\
  _data (with_last_radius_index 4 (init five_arcs open_road))
    = _data (init five_arcs open_road) /\
  find_best_arc margin_1m (init five_arcs open_road) five_arcs None 0
    = Returned (Some arc_sharp_left, 3%float) /\
  find_best_arc margin_1m (with_last_radius_index 4 (init five_arcs open_road))
    five_arcs None 0
    = Returned (Some arc_sharp_left, 3%float) /\
  exists before after e,
    five_arcs = before ++ arc_sharp_left :: after /\
    get_end_of_arc margin_1m (init five_arcs open_road) arc_sharp_left
      = Returned (Some e) /\
    Vector.y e = 3%float /\
    (forall arc' e',
       In arc' before ->
       get_end_of_arc margin_1m (init five_arcs open_road) arc'
         = Returned (Some e') ->
       (Vector.y e' <? 3)%float = true) /\
    (forall arc' e',
       In arc' after ->
       get_end_of_arc margin_1m (init five_arcs open_road) arc'
         = Returned (Some e') ->
       (Vector.y e' <=? 3)%float = true).
Proof.
  split; [reflexivity|]. split; [reflexivity|]. split; [reflexivity|].
  apply (scan_in_catalog_order margin_1m five_arcs
           (init five_arcs open_road)
           (with_last_radius_index 4 (init five_arcs open_road))
           arc_sharp_left 3%float);
    reflexivity.
Defined.

(** ** One tick *)

Section Tic.

Open Scope float_scope.

Variable SAFE_DISTANCE : float.
Variable DECELERATION_RATE : float.
Variable turn_arcs : list Arc.
Variable self : SimpleColAvoidLogic.

(** With a viable arc and a non-zero rate, [tic] assigns the speed and
    nothing else. *)
Lemma tic_viable (arc : Arc) (d : float) :
  (DECELERATION_RATE =? 0) = false ->
  find_best_arc SAFE_DISTANCE self turn_arcs None 0 = Returned (Some arc, d) ->
  tic SAFE_DISTANCE DECELERATION_RATE turn_arcs self
    = Returned
        (set_current_speed
           (_find_speed_from_distance binary64 DECELERATION_RATE (d - SAFE_DISTANCE))
           self).
Proof.
  intros Hrate H. unfold tic, call_find_speed_from_distance.
  rewrite H, Hrate. reflexivity.
Qed.

(** With a viable arc and a zero rate, the division raises. *)
Lemma tic_zero_rate (arc : Arc) (d : float) :
  (DECELERATION_RATE =? 0) = true ->
  find_best_arc SAFE_DISTANCE self turn_arcs None 0 = Returned (Some arc, d) ->
  tic SAFE_DISTANCE DECELERATION_RATE turn_arcs self = Raised ZeroDivisionError.
Proof.
  intros Hrate H. unfold tic, call_find_speed_from_distance.
  rewrite H, Hrate. reflexivity.
Qed.

Lemma tic_viable_turn_radius (arc : Arc) (d : float) :
  (DECELERATION_RATE =? 0) = false ->
  find_best_arc SAFE_DISTANCE self turn_arcs None 0 = Returned (Some arc, d) ->
  exists self',
    tic SAFE_DISTANCE DECELERATION_RATE turn_arcs self = Returned self' /\
    target_turn_radius self' = target_turn_radius self /\
    last_radius_index self' = last_radius_index self.
Proof.
  intros Hrate H. rewrite (tic_viable _ _ Hrate H). eexists. repeat split.
Qed.

(** Without one, it assigns the safe stop. *)
Lemma tic_not_viable (d : float) :
  find_best_arc SAFE_DISTANCE self turn_arcs None 0 = Returned (None, d) ->
  tic SAFE_DISTANCE DECELERATION_RATE turn_arcs self
    = Returned (set_current_speed 0 (set_current_turn_radius 0 self)).
Proof. intro H. unfold tic. rewrite H. reflexivity. Qed.

(** The only value [tic] ever assigns to the turn radius is 0. *)
Lemma tic_turn_radius_stays_zero (self' : SimpleColAvoidLogic) :
  target_turn_radius self = 0 ->
  tic SAFE_DISTANCE DECELERATION_RATE turn_arcs self = Returned self' ->
  target_turn_radius self' = 0.
Proof.
  intros Hzero H. unfold tic, call_find_speed_from_distance in H.
  destruct (find_best_arc SAFE_DISTANCE self turn_arcs None 0)
    as [[[arc|] d]|exc]; cbn [bind] in H; [| |discriminate].
  - destruct (DECELERATION_RATE =? 0); [discriminate|].
    cbn [bind] in H. injection H as <-. exact Hzero.
  - injection H as <-. reflexivity.
Qed.

End Tic.

(** C1, at the catalog of three arcs with an obstacle ahead on the left: the
    scan chooses the right arc, of turn radius 5, at a forward distance of
    3 m; after [tic] the target speed is the speed for the free distance of
    that arc, and the target turn radius is still 0. *)
Theorem tic_keeps_turn_radius :
  let self := init three_arcs obstacle_ahead_left in
  find_best_arc margin_1m self three_arcs None 0
    = Returned (Some arc_right, 3%float) /\
  radius arc_right = 5%float /\
  exists self',
    tic margin_1m rate_2ms2 three_arcs self = Returned self' /\
    target_speed self'
      = _find_speed_from_distance binary64 rate_2ms2 (3 - margin_1m)%float /\
    target_turn_radius self' = 0%float.
Proof.
  split; [reflexivity|]. split; [reflexivity|].
  eexists. split; [reflexivity|]. split; reflexivity.
Qed.

(** C2, at a straight arc sampled every half metre with an obstacle 2 m
    ahead: the last safe position is 0.5 m ahead, the free distance is
    0.5 - 1 < 0, and after [tic] the target speed is [nan], not 0. *)
Theorem tic_speed_inside_margin :
  let self := init [arc_fine] obstacle_at_2m in
  find_best_arc margin_1m self [arc_fine] None 0
    = Returned (Some arc_fine, 0.5%float) /\
  (0.5 - margin_1m <? 0)%float = true /\
  exists self',
    tic margin_1m rate_2ms2 [arc_fine] self = Returned self' /\
    is_nan (target_speed self') = true /\
    (target_speed self' =? 0)%float = false.
Proof.
  split; [reflexivity|]. split; [reflexivity|].
  eexists. split; [reflexivity|]. split; reflexivity.
Qed.

(** C7: when [get_end_of_arc] returns [None] for every arc of the catalog,
    [tic] leaves the target speed and the target turn radius at 0. *)
Theorem tic_no_safe_point
  (SAFE_DISTANCE DECELERATION_RATE : float) (turn_arcs : list Arc)
  (self : SimpleColAvoidLogic) :
  (forall arc, In arc turn_arcs ->
     get_end_of_arc SAFE_DISTANCE self arc = Returned None) ->
  exists self',
    tic SAFE_DISTANCE DECELERATION_RATE turn_arcs self = Returned self' /\
    target_speed self' = 0%float /\
    target_turn_radius self' = 0%float.
Proof.
  intro H. exists (set_current_speed 0 (set_current_turn_radius 0 self)).
  split; [|split; reflexivity].
  apply tic_not_viable with (d := 0%float).
  apply find_best_arc_unchanged. intros arc Harc. left. exact (H arc Harc).
Qed.

Lemma tic_no_safe_point_witness :
  (forall arc, In arc [arc_straight] ->
     get_end_of_arc margin_1m (cruising [arc_straight] obstacle_at_1m) arc
       = Returned None) /\
  exists self',
    tic margin_1m rate_2ms2 [arc_straight] (cruising [arc_straight] obstacle_at_1m)
      = Returned self' /\
    target_speed self' = 0%float /\
    target_turn_radius self' = 0%float.
Proof.
  assert (H : forall arc, In arc [arc_straight] ->
            get_end_of_arc margin_1m (cruising [arc_straight] obstacle_at_1m) arc
              = Returned None).
  { intros arc [<-|[]]. reflexivity. }
  split; [exact H|].
  exact (tic_no_safe_point margin_1m rate_2ms2 [arc_straight]
           (cruising [arc_straight] obstacle_at_1m) H).
Defined.

(** C10: when some arc of the catalog has a safe point and the forward
    coordinate of the safe point of every arc is at most 0, [tic] leaves the
    target speed and the target turn radius at 0, as when no arc has a safe
    point. *)
Theorem tic_no_safe_point_ahead
  (SAFE_DISTANCE DECELERATION_RATE : float) (turn_arcs : list Arc)
  (self : SimpleColAvoidLogic) :
  (exists arc e, In arc turn_arcs /\
     get_end_of_arc SAFE_DISTANCE self arc = Returned (Some e)) ->
  (forall arc e, In arc turn_arcs ->
     get_end_of_arc SAFE_DISTANCE self arc = Returned (Some e) ->
     (Vector.y e <=? 0)%float = true) ->
  exists self',
    tic SAFE_DISTANCE DECELERATION_RATE turn_arcs self = Returned self' /\
    target_speed self' = 0%float /\
    target_turn_radius self' = 0%float.
Proof.
  intros (arc0 & e0 & _ & He0) Hbehind.
  destruct (col_avoid_pointmap (_data self)) as [tree|] eqn:Hcloud;
    [|unfold get_end_of_arc in He0; rewrite Hcloud in He0; discriminate].
  exists (set_current_speed 0 (set_current_turn_radius 0 self)).
  split; [|split; reflexivity].
  apply tic_not_viable with (d := 0%float).
  apply find_best_arc_unchanged. intros arc Harc.
  pose proof (fun e => Hbehind arc e Harc) as Harc_behind.
  rewrite (get_end_of_arc_walk _ _ _ Hcloud arc) in Harc_behind |- *.
  destruct (walk_positions SAFE_DISTANCE tree (positions arc) None) as [pos|];
    [right|left; reflexivity].
  exists (Vector pos). split; [reflexivity|].
  apply FloatOrder.leb_not_ltb. exact (Harc_behind _ eq_refl).
Qed.

Lemma tic_no_safe_point_ahead_witness :
  (exists arc e, In arc [arc_straight; arc_from_origin] /\
     get_end_of_arc margin_1m
       (cruising [arc_straight; arc_from_origin] obstacle_at_1m50) arc
       = Returned (Some e)) /\
  (forall arc e, In arc [arc_straight; arc_from_origin] ->
     get_end_of_arc margin_1m
       (cruising [arc_straight; arc_from_origin] obstacle_at_1m50) arc
       = Returned (Some e) ->
     (Vector.y e <=? 0)%float = true) /\
  exists self',
    tic margin_1m rate_2ms2 [arc_straight; arc_from_origin]
      (cruising [arc_straight; arc_from_origin] obstacle_at_1m50)
      = Returned self' /\
    target_speed self' = 0%float /\
    target_turn_radius self' = 0%float.
Proof.
  assert (H1 : exists arc e, In arc [arc_straight; arc_from_origin] /\
     get_end_of_arc margin_1m
       (cruising [arc_straight; arc_from_origin] obstacle_at_1m50) arc
       = Returned (Some e)).
  { exists arc_from_origin, (Vector (0, 0)%float).
    split; [right; left; reflexivity|reflexivity]. }
  assert (H2 : forall arc e, In arc [arc_straight; arc_from_origin] ->
     get_end_of_arc margin_1m
       (cruising [arc_straight; arc_from_origin] obstacle_at_1m50) arc
       = Returned (Some e) ->
     (Vector.y e <=? 0)%float = true).
  { intros arc e [<-|[<-|[]]] He; vm_compute in He.
    - discriminate.
    - injection He as <-. reflexivity. }
  split; [exact H1|]. split; [exact H2|].
  exact (tic_no_safe_point_ahead margin_1m rate_2ms2
           [arc_straight; arc_from_origin]
           (cruising [arc_straight; arc_from_origin] obstacle_at_1m50) H1 H2).
Defined.

(** The witnesses of C8 and C9. *)
Lemma get_end_of_arc_all_clear_witness :
  col_avoid_pointmap (_data (init three_arcs obstacle_ahead_left))
    = IsKDTree (MkKDTree [(-0.5, 3)%float]) /\
  positions arc_right <> [] /\
  (forall pos q, In pos (positions arc_right) ->
     In q (data (MkKDTree [(-0.5, 3)%float])) ->
     (margin_1m <? minkowski_distance q pos)%float = true) /\
  get_end_of_arc margin_1m (init three_arcs obstacle_ahead_left) arc_right
    = Returned (Some (Vector (last (positions arc_right) (0, 0)%float))).
Proof.
  assert (H : forall pos q, In pos (positions arc_right) ->
     In q (data (MkKDTree [(-0.5, 3)%float])) ->
     (margin_1m <? minkowski_distance q pos)%float = true).
  { intros pos q [<-|[<-|[<-|[]]]] [<-|[]]; reflexivity. }
  split; [reflexivity|]. split; [discriminate|]. split; [exact H|].
  apply (get_end_of_arc_all_clear margin_1m (init three_arcs obstacle_ahead_left)
           (MkKDTree [(-0.5, 3)%float]) arc_right (0, 0)%float);
    [reflexivity|discriminate|exact H].
Defined.

Lemma get_end_of_arc_first_unsafe_witness :
  col_avoid_pointmap (_data (init three_arcs obstacle_at_1m))
    = IsKDTree (MkKDTree [(0, 1)%float]) /\
  positions arc_straight = [(0, 1); (0, 2); (0, 3)]%float /\
  In (0, 1)%float (data (MkKDTree [(0, 1)%float])) /\
  (minkowski_distance (0, 1) (0, 1) <=? margin_1m)%float = true /\
  get_end_of_arc margin_1m (init three_arcs obstacle_at_1m) arc_straight
    = Returned None.
Proof.
  split; [reflexivity|]. split; [reflexivity|].
  split; [left; reflexivity|]. split; [reflexivity|].
  apply (get_end_of_arc_first_unsafe margin_1m (init three_arcs obstacle_at_1m)
           (MkKDTree [(0, 1)%float]) arc_straight
           (0, 1)%float [(0, 2); (0, 3)]%float (0, 1)%float);
    [reflexivity|reflexivity|left; reflexivity|reflexivity].
Defined.

(** ** The first scenario of the design document

    Three arcs with forward safe distances 4, 9 and 6, a margin of 1 m and a
    rate of 2 m/s2: [tic] takes the distance 9 of the arc of index 1, and
    the target speed is that of 8 m. *)
Lemma tic_first_scenario :
  let self := init scenario_arcs open_road in
  find_best_arc margin_1m self scenario_arcs None 0
    = Returned (nth_error scenario_arcs 1, 9%float) /\
  exists self',
    tic margin_1m rate_2ms2 scenario_arcs self = Returned self' /\
    (target_speed self' =? 0x1.6a09e667f3bcdp+2)%float = true.
Proof.
  split; [reflexivity|]. eexists. split; reflexivity.
Qed.

(* ================================================================== *)
(** * Part III: further properties *)
(* ================================================================== *)

(** ** More on the traversal helper *)

Section ExpandingIndicesMore.

Open Scope Z_scope.

Variables start_index lower_bound upper_bound : Z.

Let bound : Z := Z.max (Z.abs lower_bound) (Z.abs upper_bound).
Let loop (fuel : nat) (i : Z) : option (list Z) :=
  expanding_loop fuel start_index lower_bound upper_bound i.
Let next (i : Z) : Z := if i >=? 0 then i * -1 - 1 else i * -1 + 1.

Lemma offset_is_reached_mod (i : Z) :
  offset_is_reached i = true <-> i mod 2 = (if i >=? 0 then 0 else 1).
Proof.
  unfold offset_is_reached. rewrite <- Z.negb_even.
  pose proof (Zmod_even i) as Hmod.
  destruct (i >=? 0); destruct (Z.even i); cbn; rewrite Hmod;
    split; intro H; try reflexivity; discriminate.
Qed.

Lemma next_is_reached (i : Z) :
  offset_is_reached i = true ->
  offset_is_reached (next i) = true /\ Z.abs (next i) = Z.abs i + 1.
Proof.
  rewrite !offset_is_reached_mod. unfold next.
  destruct (Z.geb_spec i 0) as [Hi|Hi].
  - destruct (Z.geb_spec (i * -1 - 1) 0); intro Hmod;
      split; Z.to_euclidean_division_equations; lia.
  - destruct (Z.geb_spec (i * -1 + 1) 0); intro Hmod;
      split; Z.to_euclidean_division_equations; lia.
Qed.

Lemma reached_same_distance (i j : Z) :
  offset_is_reached i = true -> offset_is_reached j = true ->
  Z.abs i = Z.abs j -> i = j.
Proof.
  rewrite !offset_is_reached_mod.
  destruct (Z.geb_spec i 0); destruct (Z.geb_spec j 0); intros Hi Hj Habs;
    Z.to_euclidean_division_equations; lia.
Qed.

(** The loop yields reached offsets only. *)
Lemma expanding_loop_reached (fuel : nat) :
  forall i yielded,
    offset_is_reached i = true ->
    loop fuel i = Some yielded ->
    forall k, In k yielded -> offset_is_reached (k - start_index) = true.
Proof.
  unfold loop.
  induction fuel as [|fuel IH]; intros i yielded Hi H k Hk; [discriminate|].
  cbn [expanding_loop] in H. fold (next i) in H.
  destruct (next_is_reached i Hi) as [Hnext _].
  destruct ((lower_bound <=? i) && (i <? upper_bound)).
  - destruct (expanding_loop fuel _ _ _ _) as [tl|] eqn:E; [|discriminate].
    injection H as <-. destruct Hk as [<-|Hk].
    + replace (i + start_index - start_index) with i by lia. exact Hi.
    + exact (IH _ _ Hnext E k Hk).
  - destruct (Z.abs i >? _).
    + injection H as <-. destruct Hk.
    + exact (IH _ _ Hnext H k Hk).
Qed.

(** It yields every reached offset between the bounds that is not nearer to
    the start than the current one. *)
Lemma expanding_loop_complete (fuel : nat) :
  forall i yielded,
    offset_is_reached i = true ->
    loop fuel i = Some yielded ->
    forall j,
      offset_is_reached j = true -> Z.abs i <= Z.abs j ->
      lower_bound <= j < upper_bound ->
      In (j + start_index) yielded.
Proof.
  unfold loop.
  induction fuel as [|fuel IH]; intros i yielded Hi H j Hj Hdist Hin;
    [discriminate|].
  cbn [expanding_loop] in H. fold (next i) in H.
  destruct (next_is_reached i Hi) as [Hnext Habs].
  assert (Hfar : i <> j -> Z.abs (next i) <= Z.abs j).
  { intro Hne. rewrite Habs.
    destruct (Z.eq_dec (Z.abs i) (Z.abs j)) as [E|E]; [|lia].
    elim Hne. exact (reached_same_distance _ _ Hi Hj E). }
  destruct ((lower_bound <=? i) && (i <? upper_bound)) eqn:Hrange.
  - destruct (expanding_loop fuel _ _ _ _) as [tl|] eqn:E; [|discriminate].
    injection H as <-.
    destruct (Z.eq_dec i j) as [->|Hne]; [left; reflexivity|right].
    exact (IH _ _ Hnext E j Hj (Hfar Hne) Hin).
  - destruct (Z.gtb_spec (Z.abs i)
                (Z.max (Z.abs lower_bound) (Z.abs upper_bound))) as [Hout|_].
    + lia.
    + apply (IH _ _ Hnext H j Hj); [|exact Hin].
      apply Hfar. intros ->.
      apply andb_false_iff in Hrange.
      destruct Hrange as [Hr|Hr];
        [apply Z.leb_gt in Hr|apply Z.ltb_ge in Hr]; lia.
Qed.

(** Each index is farther from the start than the indices before it. *)
Lemma expanding_loop_outward (fuel : nat) :
  forall i yielded,
    loop fuel i = Some yielded ->
    ForallOrdPairs
      (fun a b => Z.abs (a - start_index) < Z.abs (b - start_index)) yielded.
Proof.
  unfold loop.
  induction fuel as [|fuel IH]; intros i yielded H; [discriminate|].
  cbn [expanding_loop] in H.
  destruct ((lower_bound <=? i) && (i <? upper_bound)).
  - destruct (expanding_loop fuel _ _ _ _) as [tl|] eqn:E; [|discriminate].
    injection H as <-. constructor; [|exact (IH _ _ E)].
    apply Forall_forall. intros k Hk.
    destruct (expanding_loop_yields _ _ _ _ _ _ E _ Hk) as [_ Hd].
    destruct (Z.geb_spec i 0); lia.
  - destruct (Z.abs i >? _).
    + injection H as <-. constructor.
    + exact (IH _ _ H).
Qed.

(** The last iteration yields nothing: fewer indices than iterations. *)
Lemma expanding_loop_length (fuel : nat) :
  forall i yielded, loop fuel i = Some yielded -> (length yielded < fuel)%nat.
Proof.
  unfold loop.
  induction fuel as [|fuel IH]; intros i yielded H; [discriminate|].
  cbn [expanding_loop] in H.
  destruct ((lower_bound <=? i) && (i <? upper_bound)).
  - destruct (expanding_loop fuel _ _ _ _) as [tl|] eqn:E; [|discriminate].
    injection H as <-. cbn [length]. pose proof (IH _ _ E). lia.
  - destruct (Z.abs i >? _).
    + injection H as <-. cbn [length]. lia.
    + pose proof (IH _ _ H). lia.
Qed.

(** The indices are those of the start 0, moved by the start. *)
Lemma expanding_loop_shift (fuel : nat) :
  forall i,
    loop fuel i
    = option_map (map (fun k => k + start_index))
        (expanding_loop fuel 0 lower_bound upper_bound i).
Proof.
  unfold loop.
  induction fuel as [|fuel IH]; intro i; [reflexivity|].
  cbn [expanding_loop].
  destruct ((lower_bound <=? i) && (i <? upper_bound)).
  - rewrite IH.
    destruct (expanding_loop fuel 0 _ _ _) as [tl|]; [|reflexivity].
    cbn. rewrite Z.add_0_r. reflexivity.
  - destruct (Z.abs i >? _); [reflexivity|apply IH].
Qed.

End ExpandingIndicesMore.

(** X1: the generator [expanding_indices] is finite for every start and every
    pair of bounds: the loop reaches its [break] within
    [max(|lower_bound|, |upper_bound|) + 2] iterations, with the same indices
    whatever the iterations allowed beyond that, and it yields at most
    [max(|lower_bound|, |upper_bound|) + 1] indices. *)
Theorem expanding_indices_finite (start_index lower_bound upper_bound : Z) :
  exists yielded,
    (forall fuel, (expanding_fuel lower_bound upper_bound <= fuel)%nat ->
       expanding_loop fuel start_index lower_bound upper_bound 0 = Some yielded) /\
    yielded = expanding_indices start_index lower_bound upper_bound /\
    (Z.of_nat (length yielded)
     <= Z.max (Z.abs lower_bound) (Z.abs upper_bound) + 1)%Z.
Proof.
  exists (expanding_indices start_index lower_bound upper_bound).
  split; [exact (expanding_loop_terminates _ _ _)|]. split; [reflexivity|].
  pose proof (expanding_loop_length _ _ _ _ _ _
                (expanding_loop_terminates start_index lower_bound upper_bound
                   _ (Nat.le_refl _))) as Hlen.
  unfold expanding_fuel in Hlen. lia.
Qed.

(** X2: an index is yielded by [expanding_indices] exactly when its offset
    from the start lies between the bounds, the upper one excluded, and is
    even if it is on the upper side, odd if it is on the lower side.  The
    other offsets (1, -2, 3, ...) are never yielded. *)
Theorem expanding_indices_membership (start_index lower_bound upper_bound k : Z) :
  In k (expanding_indices start_index lower_bound upper_bound) <->
  (lower_bound <= k - start_index < upper_bound)%Z /\
  offset_is_reached (k - start_index) = true.
Proof.
  pose proof (expanding_loop_terminates start_index lower_bound upper_bound
                _ (Nat.le_refl _)) as Hloop.
  cbv beta in Hloop.
  split.
  - intro Hk. split.
    + pose proof (expanding_indices_in_bounds _ _ _ _ Hk). lia.
    + exact (expanding_loop_reached start_index lower_bound upper_bound
               _ 0%Z _ eq_refl Hloop k Hk).
  - intros [Hrange Hreached].
    replace k with (k - start_index + start_index)%Z by lia.
    apply (expanding_loop_complete start_index lower_bound upper_bound
             _ 0%Z _ eq_refl Hloop);
      [exact Hreached|lia|exact Hrange].
Qed.

(** X3: the indices of [expanding_indices] come in the order of their distance
    to the start: each one is strictly farther from the start than every
    index yielded before it. *)
Theorem expanding_indices_outward (start_index lower_bound upper_bound : Z) :
  ForallOrdPairs
    (fun a b => (Z.abs (a - start_index) < Z.abs (b - start_index))%Z)
    (expanding_indices start_index lower_bound upper_bound).
Proof.
  exact (expanding_loop_outward _ _ _ _ _ _
           (expanding_loop_terminates start_index lower_bound upper_bound
              _ (Nat.le_refl _))).
Qed.

(** X4: [expanding_indices] moves with its start: the indices for a start are
    those for the start 0, each increased by the start. *)
Theorem expanding_indices_shift (start_index lower_bound upper_bound : Z) :
  expanding_indices start_index lower_bound upper_bound
  = map (fun k => (k + start_index)%Z) (expanding_indices 0 lower_bound upper_bound).
Proof.
  unfold expanding_indices. rewrite expanding_loop_shift.
  destruct (expanding_loop _ 0 _ _ _); reflexivity.
Qed.

(** ** More on the arc safety evaluator *)

Section EvaluatorMore.

Open Scope float_scope.

Variable SAFE_DISTANCE : float.
Variable col_avoid_cloud : KDTree.

Lemma query_ball_point_empty_inv (x : point) (r : float) :
  query_ball_point col_avoid_cloud x r = [] ->
  forall q, In q (data col_avoid_cloud) -> (minkowski_distance q x <=? r) = false.
Proof.
  intros Hempty q Hq.
  destruct (minkowski_distance q x <=? r) eqn:Hnear; [|reflexivity].
  pose proof (query_ball_point_hit _ _ _ _ Hq Hnear) as Hhit.
  rewrite Hempty in Hhit. discriminate.
Qed.

Lemma last_position_cons (p : point) (l : list point) :
  last_position (p :: l)
  = Some (match last_position l with Some q => q | None => p end).
Proof.
  destruct l as [|q l]; [reflexivity|].
  cbn [last_position]. rewrite last_cons. reflexivity.
Qed.

(** The walk stops at the first position with an impinging point: what comes
    after it is not looked at. *)
Lemma walk_positions_early_exit (bad : point) (rest : list point) :
  query_ball_point col_avoid_cloud bad SAFE_DISTANCE <> [] ->
  forall safe last_safe_point,
    (forall p, In p safe ->
       query_ball_point col_avoid_cloud p SAFE_DISTANCE = []) ->
    walk_positions SAFE_DISTANCE col_avoid_cloud (safe ++ bad :: rest)
      last_safe_point
    = match last_position safe with
      | Some p => Some p
      | None => last_safe_point
      end.
Proof.
  intros Hbad safe.
  induction safe as [|p safe IH]; intros last_safe_point Hsafe.
  - cbn [app walk_positions last_position].
    destruct (query_ball_point col_avoid_cloud bad SAFE_DISTANCE);
      [contradiction|reflexivity].
  - cbn [app walk_positions].
    rewrite (Hsafe p (or_introl eq_refl)). cbn [length Nat.eqb].
    rewrite IH by (intros q Hq; apply Hsafe; right; exact Hq).
    rewrite last_position_cons.
    destruct (last_position safe); reflexivity.
Qed.

(** What the walk hands back beyond its starting value is a position of the
    list, reached through clear positions only. *)
Lemma walk_positions_safe (remaining : list point) :
  forall last_safe_point pos,
    walk_positions SAFE_DISTANCE col_avoid_cloud remaining last_safe_point
      = Some pos ->
    last_safe_point = Some pos \/
    exists before after,
      remaining = before ++ pos :: after /\
      forall p, In p (before ++ [pos]) ->
        query_ball_point col_avoid_cloud p SAFE_DISTANCE = [].
Proof.
  induction remaining as [|p rest IH]; intros last_safe_point pos H.
  - left. exact H.
  - cbn [walk_positions] in H.
    destruct (query_ball_point col_avoid_cloud p SAFE_DISTANCE) eqn:Hp;
      cbn [length Nat.eqb] in H; [|left; exact H].
    right. destruct (IH _ _ H) as [E|(before & after & -> & Hclear)].
    + injection E as ->. exists [], rest. split; [reflexivity|].
      intros q [<-|[]]. exact Hp.
    + exists (p :: before), after. split; [reflexivity|].
      intros q [<-|Hq]; [exact Hp|exact (Hclear q Hq)].
Qed.

End EvaluatorMore.

(** X5: [get_end_of_arc] stops at the first position of the arc that has an
    obstacle point within the margin: the result is the last position before
    it ([None] when there is none), whatever the positions after it. *)
Theorem get_end_of_arc_early_exit
  (SAFE_DISTANCE : float) (self : SimpleColAvoidLogic) (col_avoid_cloud : KDTree)
  (arc : Arc) (safe : list point) (bad : point) (rest : list point) :
  col_avoid_pointmap (_data self) = IsKDTree col_avoid_cloud ->
  positions arc = safe ++ bad :: rest ->
  (forall p, In p safe -> query_ball_point col_avoid_cloud p SAFE_DISTANCE = []) ->
  query_ball_point col_avoid_cloud bad SAFE_DISTANCE <> [] ->
  get_end_of_arc SAFE_DISTANCE self arc
    = Returned (option_map Vector (last_position safe)).
Proof.
  intros Hcloud Hpos Hsafe Hbad.
  rewrite (get_end_of_arc_walk _ _ _ Hcloud), Hpos.
  rewrite (walk_positions_early_exit _ _ _ _ Hbad _ _ Hsafe).
  destruct (last_position safe); reflexivity.
Qed.

Lemma get_end_of_arc_early_exit_witness :
  col_avoid_pointmap (_data (init three_arcs obstacle_ahead_left))
    = IsKDTree (MkKDTree [(-0.5, 3)%float]) /\
  positions arc_left = [(-0.25, 1)%float] ++ (-0.5, 2)%float :: [(-1, 3)%float] /\
  (forall p, In p [(-0.25, 1)%float] ->
     query_ball_point (MkKDTree [(-0.5, 3)%float]) p margin_1m = []) /\
  query_ball_point (MkKDTree [(-0.5, 3)%float]) (-0.5, 2)%float margin_1m <> [] /\
  get_end_of_arc margin_1m (init three_arcs obstacle_ahead_left) arc_left
    = Returned (option_map Vector (last_position [(-0.25, 1)%float])).
Proof.
  assert (H : forall p, In p [(-0.25, 1)%float] ->
     query_ball_point (MkKDTree [(-0.5, 3)%float]) p margin_1m = []).
  { intros p [<-|[]]. reflexivity. }
  split; [reflexivity|]. split; [reflexivity|]. split; [exact H|].
  split; [discriminate|].
  apply (get_end_of_arc_early_exit margin_1m (init three_arcs obstacle_ahead_left)
           (MkKDTree [(-0.5, 3)%float]) arc_left
           [(-0.25, 1)%float] (-0.5, 2)%float [(-1, 3)%float]);
    [reflexivity|reflexivity|exact H|discriminate].
Defined.

(** X6: a safe point returned by [get_end_of_arc] is a position of the arc,
    and neither it nor any position of the arc before it has a point of the
    obstacle cloud within the margin. *)
Theorem get_end_of_arc_safe
  (SAFE_DISTANCE : float) (self : SimpleColAvoidLogic) (col_avoid_cloud : KDTree)
  (arc : Arc) (e : Vector.t) :
  col_avoid_pointmap (_data self) = IsKDTree col_avoid_cloud ->
  get_end_of_arc SAFE_DISTANCE self arc = Returned (Some e) ->
  exists before pos after,
    positions arc = before ++ pos :: after /\
    e = Vector pos /\
    forall p q, In p (before ++ [pos]) -> In q (data col_avoid_cloud) ->
      (minkowski_distance q p <=? SAFE_DISTANCE)%float = false.
Proof.
  intros Hcloud H.
  rewrite (get_end_of_arc_walk _ _ _ Hcloud) in H. injection H as H.
  destruct (walk_positions _ _ _ _) as [pos|] eqn:E; [|discriminate].
  injection H as <-.
  destruct (walk_positions_safe _ _ _ _ _ E)
    as [Hnone|(before & after & Hpos & Hclear)]; [discriminate|].
  exists before, pos, after. split; [exact Hpos|]. split; [reflexivity|].
  intros p q Hp Hq.
  exact (query_ball_point_empty_inv _ _ _ (Hclear p Hp) q Hq).
Qed.

Lemma get_end_of_arc_safe_witness :
  col_avoid_pointmap (_data (init three_arcs obstacle_ahead_left))
    = IsKDTree (MkKDTree [(-0.5, 3)%float]) /\
  get_end_of_arc margin_1m (init three_arcs obstacle_ahead_left) arc_straight
    = Returned (Some (Vector (0, 2)%float)) /\
  exists before pos after,
    positions arc_straight = before ++ pos :: after /\
    Vector (0, 2)%float = Vector pos /\
    forall p q, In p (before ++ [pos]) -> In q (data (MkKDTree [(-0.5, 3)%float])) ->
      (minkowski_distance q p <=? margin_1m)%float = false.
Proof.
  split; [reflexivity|]. split; [reflexivity|].
  apply (get_end_of_arc_safe margin_1m (init three_arcs obstacle_ahead_left)
           (MkKDTree [(-0.5, 3)%float]) arc_straight (Vector (0, 2)%float));
    reflexivity.
Defined.

(** ** More on the scan and on one tick *)

Section SelectorMore.

Open Scope float_scope.

Variable SAFE_DISTANCE : float.
Variable self : SimpleColAvoidLogic.



(** The scan hands back its accumulator, or an arc of the list whose forward
    distance is the result and is strictly beyond the accumulator. *)
Lemma find_best_arc_progress (remaining : list Arc) :
  forall best_arc best_distance res_arc d,
    find_best_arc SAFE_DISTANCE self remaining best_arc best_distance
      = Returned (res_arc, d) ->
    (res_arc = best_arc /\ d = best_distance) \/
    ((best_distance <? d) = true /\
     exists arc e,
       res_arc = Some arc /\ In arc remaining /\
       get_end_of_arc SAFE_DISTANCE self arc = Returned (Some e) /\
       Vector.y e = d).
Proof.
  induction remaining as [|arc rest IH]; intros best_arc best_distance res_arc d H.
  - injection H as <- <-. left. split; reflexivity.
  - cbn [find_best_arc] in H.
    destruct (get_end_of_arc SAFE_DISTANCE self arc) as [[e|]|exc] eqn:He;
      cbn [bind] in H; [| |discriminate].
    + destruct (best_distance <? Vector.y e) eqn:Hlt.
      * right.
        destruct (IH _ _ _ _ H) as [[-> ->]|[Hlt2 (a & e2 & -> & Hin & Ha & <-)]].
        { split; [exact Hlt|]. exists arc, e.
          repeat split; [left; reflexivity|exact He]. }
        { split.
          - exact (FloatOrder.ltb_leb_trans _ _ _ Hlt (FloatOrder.ltb_leb _ _ Hlt2)).
          - exists a, e2. repeat split; [right; exact Hin|exact Ha]. }
      * destruct (IH _ _ _ _ H) as [Hsame|[Hlt2 (a & e2 & -> & Hin & Ha & <-)]];
          [left; exact Hsame|right].
        split; [exact Hlt2|]. exists a, e2.
        repeat split; [right; exact Hin|exact Ha].
    + destruct (IH _ _ _ _ H) as [Hsame|[Hlt2 (a & e2 & -> & Hin & Ha & <-)]];
        [left; exact Hsame|right].
      split; [exact Hlt2|]. exists a, e2.
      repeat split; [right; exact Hin|exact Ha].
Qed.

End SelectorMore.

(** X7: the scan of [tic] chooses an arc only for a safe point strictly ahead
    of the vehicle: when it chooses an arc, the arc is in the catalog and
    [best_distance] is the forward coordinate of its safe point and is
    greater than 0; when it chooses none, [best_distance] is still 0. *)
Theorem find_best_arc_ahead
  (SAFE_DISTANCE : float) (turn_arcs : list Arc) (self : SimpleColAvoidLogic)
  (best_arc : option Arc) (best_distance : float) :
  find_best_arc SAFE_DISTANCE self turn_arcs None 0
    = Returned (best_arc, best_distance) ->
  match best_arc with
  | None => best_distance = 0%float
  | Some arc =>
      (0 <? best_distance)%float = true /\
      In arc turn_arcs /\
      exists e, get_end_of_arc SAFE_DISTANCE self arc = Returned (Some e) /\
                Vector.y e = best_distance
  end.
Proof.
  intro H.
  destruct (find_best_arc_progress _ _ _ _ _ _ _ H)
    as [[-> ->]|[Hlt (a & e & -> & Hin & Ha & Hy)]]; [reflexivity|].
  split; [exact Hlt|]. split; [exact Hin|]. exists e. split; assumption.
Qed.

Lemma find_best_arc_ahead_witness :
  find_best_arc margin_1m (init three_arcs obstacle_ahead_left) three_arcs None 0
    = Returned (Some arc_right, 3%float) /\
  (0 <? 3)%float = true /\
  In arc_right three_arcs /\
  exists e,
    get_end_of_arc margin_1m (init three_arcs obstacle_ahead_left) arc_right
      = Returned (Some e) /\
    Vector.y e = 3%float.
Proof.
  split; [reflexivity|].
  apply (find_best_arc_ahead margin_1m three_arcs
           (init three_arcs obstacle_ahead_left) (Some arc_right) 3%float).
  reflexivity.
Defined.


Section TicMore.

Open Scope float_scope.

Variable SAFE_DISTANCE : float.
Variable DECELERATION_RATE : float.
Variable turn_arcs : list Arc.

(** What [tic] returns, by the result of the scan. *)
Lemma tic_returned (self self' : SimpleColAvoidLogic) :
  tic SAFE_DISTANCE DECELERATION_RATE turn_arcs self = Returned self' ->
  (exists d,
     find_best_arc SAFE_DISTANCE self turn_arcs None 0 = Returned (None, d) /\
     self' = set_current_speed 0 (set_current_turn_radius 0 self)) \/
  (exists arc d,
     (DECELERATION_RATE =? 0) = false /\
     find_best_arc SAFE_DISTANCE self turn_arcs None 0 = Returned (Some arc, d) /\
     self' = set_current_speed
               (_find_speed_from_distance binary64 DECELERATION_RATE
                  (d - SAFE_DISTANCE)) self).
Proof.
  intro H. unfold tic, call_find_speed_from_distance in H.
  destruct (find_best_arc SAFE_DISTANCE self turn_arcs None 0)
    as [[[arc|] d]|exc]; cbn [bind] in H; [| |discriminate].
  - destruct (DECELERATION_RATE =? 0) eqn:Hrate; [discriminate|].
    cbn [bind] in H. injection H as <-.
    right. exists arc, d. repeat split.
  - injection H as <-. left. exists d. split; reflexivity.
Qed.

Lemma tic_same_data (self other : SimpleColAvoidLogic) :
  _data other = _data self ->
  find_best_arc SAFE_DISTANCE other turn_arcs None 0
    = find_best_arc SAFE_DISTANCE self turn_arcs None 0.
Proof. intro H. apply find_best_arc_same_data. exact H. Qed.

End TicMore.

(** X9: [tic] assigns nothing but the two outputs: the drive data and
    [last_radius_index] are as before, and the target turn radius is 0 or as
    before. *)
Theorem tic_frame
  (SAFE_DISTANCE DECELERATION_RATE : float) (turn_arcs : list Arc)
  (self self' : SimpleColAvoidLogic) :
  tic SAFE_DISTANCE DECELERATION_RATE turn_arcs self = Returned self' ->
  _data self' = _data self /\
  last_radius_index self' = last_radius_index self /\
  (target_turn_radius self' = 0%float \/
   target_turn_radius self' = target_turn_radius self).
Proof.
  intro H.
  destruct (tic_returned _ _ _ _ _ H) as [(d & _ & ->)|(arc & d & _ & _ & ->)].
  - repeat split. left. reflexivity.
  - repeat split. right. reflexivity.
Qed.

Lemma tic_frame_witness :
  tic margin_1m rate_2ms2 three_arcs (cruising three_arcs obstacle_ahead_left)
    = Returned
        (set_current_speed
           (_find_speed_from_distance binary64 rate_2ms2 (3 - margin_1m)%float)
           (cruising three_arcs obstacle_ahead_left)) /\
  _data (set_current_speed
           (_find_speed_from_distance binary64 rate_2ms2 (3 - margin_1m)%float)
           (cruising three_arcs obstacle_ahead_left))
    = _data (cruising three_arcs obstacle_ahead_left) /\
  last_radius_index
    (set_current_speed
       (_find_speed_from_distance binary64 rate_2ms2 (3 - margin_1m)%float)
       (cruising three_arcs obstacle_ahead_left))
    = last_radius_index (cruising three_arcs obstacle_ahead_left) /\
  (target_turn_radius
     (set_current_speed
        (_find_speed_from_distance binary64 rate_2ms2 (3 - margin_1m)%float)
        (cruising three_arcs obstacle_ahead_left)) = 0%float \/
   target_turn_radius
     (set_current_speed
        (_find_speed_from_distance binary64 rate_2ms2 (3 - margin_1m)%float)
        (cruising three_arcs obstacle_ahead_left))
     = target_turn_radius (cruising three_arcs obstacle_ahead_left)).
Proof.
  split; [reflexivity|].
  apply (tic_frame margin_1m rate_2ms2 three_arcs
           (cruising three_arcs obstacle_ahead_left)).
  reflexivity.
Defined.

(** X10: [tic] is idempotent on unchanged drive data: a second tick leaves
    the controller as the first one left it. *)
Theorem tic_idempotent
  (SAFE_DISTANCE DECELERATION_RATE : float) (turn_arcs : list Arc)
  (self self' : SimpleColAvoidLogic) :
  tic SAFE_DISTANCE DECELERATION_RATE turn_arcs self = Returned self' ->
  tic SAFE_DISTANCE DECELERATION_RATE turn_arcs self' = Returned self'.
Proof.
  intro H.
  destruct (tic_returned _ _ _ _ _ H)
    as [(d & Hscan & ->)|(arc & d & Hrate & Hscan & ->)].
  - rewrite (tic_not_viable _ DECELERATION_RATE _ _ d).
    + reflexivity.
    + rewrite <- Hscan. apply tic_same_data. reflexivity.
  - rewrite (tic_viable _ DECELERATION_RATE _ _ arc d Hrate).
    + reflexivity.
    + rewrite <- Hscan. apply tic_same_data. reflexivity.
Qed.

Lemma tic_idempotent_witness :
  tic margin_1m rate_2ms2 three_arcs (cruising three_arcs obstacle_ahead_left)
    = Returned
        (set_current_speed
           (_find_speed_from_distance binary64 rate_2ms2 (3 - margin_1m)%float)
           (cruising three_arcs obstacle_ahead_left)) /\
  tic margin_1m rate_2ms2 three_arcs
    (set_current_speed
       (_find_speed_from_distance binary64 rate_2ms2 (3 - margin_1m)%float)
       (cruising three_arcs obstacle_ahead_left))
    = Returned
        (set_current_speed
           (_find_speed_from_distance binary64 rate_2ms2 (3 - margin_1m)%float)
           (cruising three_arcs obstacle_ahead_left)).
Proof.
  split; [reflexivity|].
  apply (tic_idempotent margin_1m rate_2ms2 three_arcs
           (cruising three_arcs obstacle_ahead_left)).
  reflexivity.
Defined.

(** X11: the target speed after [tic] is determined by the drive data, the
    catalog and the two constants: controllers that hold the same drive data
    get the same target speed, whatever their outputs of the tick before and
    their [last_radius_index]. *)
Theorem tic_speed_from_data
  (SAFE_DISTANCE DECELERATION_RATE : float) (turn_arcs : list Arc)
  (self other self' : SimpleColAvoidLogic) :
  _data other = _data self ->
  tic SAFE_DISTANCE DECELERATION_RATE turn_arcs self = Returned self' ->
  exists other',
    tic SAFE_DISTANCE DECELERATION_RATE turn_arcs other = Returned other' /\
    target_speed other' = target_speed self'.
Proof.
  intros Hdata H.
  pose proof (tic_same_data SAFE_DISTANCE turn_arcs self other Hdata) as Hscan.
  destruct (tic_returned _ _ _ _ _ H)
    as [(d & Hs & ->)|(arc & d & Hrate & Hs & ->)];
    rewrite Hs in Hscan.
  - eexists. split; [exact (tic_not_viable _ DECELERATION_RATE _ _ d Hscan)|].
    reflexivity.
  - eexists.
    split; [exact (tic_viable _ DECELERATION_RATE _ _ arc d Hrate Hscan)|].
    reflexivity.
Qed.

Lemma tic_speed_from_data_witness :
  _data (with_last_radius_index 0 (cruising three_arcs obstacle_ahead_left))
    = _data (init three_arcs obstacle_ahead_left) /\
  tic margin_1m rate_2ms2 three_arcs (init three_arcs obstacle_ahead_left)
    = Returned
        (set_current_speed
           (_find_speed_from_distance binary64 rate_2ms2 (3 - margin_1m)%float)
           (init three_arcs obstacle_ahead_left)) /\
  exists other',
    tic margin_1m rate_2ms2 three_arcs
      (with_last_radius_index 0 (cruising three_arcs obstacle_ahead_left))
      = Returned other' /\
    target_speed other'
      = target_speed
          (set_current_speed
             (_find_speed_from_distance binary64 rate_2ms2 (3 - margin_1m)%float)
             (init three_arcs obstacle_ahead_left)).
Proof.
  split; [reflexivity|]. split; [reflexivity|].
  apply (tic_speed_from_data margin_1m rate_2ms2 three_arcs
           (init three_arcs obstacle_ahead_left)
           (with_last_radius_index 0 (cruising three_arcs obstacle_ahead_left)));
    reflexivity.
Defined.

(** ** The scripted logics *)

Section ScriptedLogics.

Open Scope float_scope.

Variable self : Logic.t.

Let t : float := run_time (Logic._data self).

Lemma not_between (a b c d : float) :
  (b <=? c) = true -> (a <? t) && (t <? b) = true -> (c <? t) && (t <? d) = true ->
  False.
Proof.
  intros Hbc Hab Hcd.
  apply andb_true_iff in Hab. destruct Hab as [_ Htb].
  apply andb_true_iff in Hcd. destruct Hcd as [Hct _].
  pose proof (FloatOrder.ltb_leb_trans _ _ _ Htb Hbc) as Htc.
  pose proof (FloatOrder.ltb_not_leb _ _ Htc) as Hnot.
  rewrite (FloatOrder.ltb_leb _ _ Hct) in Hnot. discriminate.
Qed.

Lemma not_before (a b c : float) :
  (b <=? c) = true -> (c <=? t) = true -> (a <? t) && (t <? b) = false.
Proof.
  intros Hbc Hct.
  destruct ((a <? t) && (t <? b)) eqn:Hab; [|reflexivity].
  apply andb_true_iff in Hab. destruct Hab as [_ Htb].
  pose proof (FloatOrder.leb_trans _ _ _ Hbc Hct) as Hbt.
  rewrite (FloatOrder.leb_not_ltb _ _ Hbt) in Htb. discriminate.
Qed.

End ScriptedLogics.

(** X12: [SimpleTestLogic] never steers while it drives: at every run time
    its target speed is 0 or its target turn radius is 0. *)
Theorem simple_test_drives_straight (self : Logic.t) :
  SimpleTestLogic.target_speed self = Supported 0%float \/
  SimpleTestLogic.target_turn_radius self = Supported 0%float.
Proof.
  unfold SimpleTestLogic.target_speed, SimpleTestLogic.target_turn_radius.
  destruct ((15 <? run_time (Logic._data self))
            && (run_time (Logic._data self) <? 20))%float eqn:Hdrive;
    [right|left; reflexivity].
  destruct ((0 <? run_time (Logic._data self))
            && (run_time (Logic._data self) <? 5))%float eqn:Hleft.
  - destruct (not_between self 0 5 15 20 eq_refl Hleft Hdrive).
  - destruct ((5 <? run_time (Logic._data self))
              && (run_time (Logic._data self) <? 10))%float eqn:Hright;
      [|reflexivity].
    destruct (not_between self 5 10 15 20 eq_refl Hright Hdrive).
Qed.

(** X13: the scripts come to rest: from a run time of 10 s on the target turn
    radius of [StaticWheelTurnLogic] and of [SimpleTestLogic] is 0, and from
    20 s on the target speed of [SimpleTestLogic] is 0 as well. *)
Theorem scripted_logics_rest (self : Logic.t) :
  (10 <=? run_time (Logic._data self))%float = true ->
  StaticWheelTurnLogic.target_turn_radius self = Supported 0%float /\
  SimpleTestLogic.target_turn_radius self = Supported 0%float /\
  ((20 <=? run_time (Logic._data self))%float = true ->
   SimpleTestLogic.target_speed self = Supported 0%float).
Proof.
  intro H10.
  unfold StaticWheelTurnLogic.target_turn_radius,
    SimpleTestLogic.target_turn_radius, SimpleTestLogic.target_speed.
  rewrite (not_before self 0 5 10 eq_refl H10).
  rewrite (not_before self 5 10 10 eq_refl H10).
  split; [reflexivity|]. split; [reflexivity|].
  intro H20. rewrite (not_before self 15 20 20 eq_refl H20). reflexivity.
Qed.

Lemma scripted_logics_rest_witness :
  (10 <=? run_time (Logic._data (at_run_time 25)))%float = true /\
  StaticWheelTurnLogic.target_turn_radius (at_run_time 25) = Supported 0%float /\
  SimpleTestLogic.target_turn_radius (at_run_time 25) = Supported 0%float /\
  ((20 <=? run_time (Logic._data (at_run_time 25)))%float = true ->
   SimpleTestLogic.target_speed (at_run_time 25) = Supported 0%float).
Proof.
  split; [reflexivity|].
  apply (scripted_logics_rest (at_run_time 25)). reflexivity.
Defined.

(** ** Construction *)

(** X14: a controller built over a non-empty catalog starts with
    [last_radius_index] a valid index of the catalog, the middle one, and
    with both outputs at 0. *)
Theorem init_in_catalog (turn_arcs : list Arc) (data : DriveData) :
  turn_arcs <> [] ->
  (0 <= last_radius_index (init turn_arcs data) < Z.of_nat (length turn_arcs))%Z /\
  (exists arc,
     nth_error turn_arcs (Z.to_nat (last_radius_index (init turn_arcs data)))
       = Some arc) /\
  target_speed (init turn_arcs data) = 0%float /\
  target_turn_radius (init turn_arcs data) = 0%float.
Proof.
  intro Hne. cbn [init last_radius_index].
  assert (Hlen : (0 < Z.of_nat (length turn_arcs))%Z).
  { destruct turn_arcs; [contradiction|cbn [length]; lia]. }
  assert (Hidx : (0 <= Z.of_nat (length turn_arcs) / 2
                  < Z.of_nat (length turn_arcs))%Z).
  { split; [apply Z.div_pos; lia|apply Z.div_lt; lia]. }
  split; [exact Hidx|]. split; [|split; reflexivity].
  destruct (nth_error turn_arcs (Z.to_nat (Z.of_nat (length turn_arcs) / 2)))
    as [arc|] eqn:E; [exists arc; reflexivity|].
  apply nth_error_None in E. lia.
Qed.

Lemma init_in_catalog_witness :
  five_arcs <> [] /\
  (0 <= last_radius_index (init five_arcs open_road)
   < Z.of_nat (length five_arcs))%Z /\
  (exists arc,
     nth_error five_arcs (Z.to_nat (last_radius_index (init five_arcs open_road)))
       = Some arc) /\
  target_speed (init five_arcs open_road) = 0%float /\
  target_turn_radius (init five_arcs open_road) = 0%float.
Proof.
  split; [discriminate|].
  apply (init_in_catalog five_arcs open_road). discriminate.
Defined.
